(** * ESP32-NetFind: the scan-filter-aggregate pipeline and its presentation

    A shallow embedding of [src/main.cpp].  The sketch scans for WiFi access
    points, keeps those whose MAC address starts with a three-octet filter,
    records their signal strength in a global [std::map], and shows the
    number of matches on discrete LEDs and on an OLED display.

    The radio, the serial port, the GPIO lines and the display are libraries
    outside the sketch.  They are modelled by what the sketch can observe
    of them: the values the accessors return, the bytes written to the serial
    port, the level last written to each pin, the frame last committed to the
    display. *)

From stdpp Require Import gmap strings list fin_maps pretty.

Open Scope Z_scope.

(** ** Fixed-width integers

    C++ integers are embedded in [Z]; a value stored in a variable of a
    fixed-width type is brought back into the range of that type. *)

Module Int.

Definition unsigned (bits x : Z) : Z := x mod 2 ^ bits.

Definition signed (bits x : Z) : Z :=
  (x + 2 ^ (bits - 1)) mod 2 ^ bits - 2 ^ (bits - 1).

Definition uint8 : Z → Z := unsigned 8.
Definition uint16 : Z → Z := unsigned 16.
Definition int16 : Z → Z := signed 16.
Definition int32 : Z → Z := signed 32.

Definition INT32_MIN : Z := - 2 ^ 31.
Definition INT16_MAX : Z := 2 ^ 15 - 1.
Definition UINT16_MAX : Z := 2 ^ 16 - 1.

(** [std::abs] on [int32_t].  The magnitude of [INT32_MIN] is not
    representable; the two's-complement result is [INT32_MIN] again. *)
Definition std_abs (x : Z) : Z := int32 (Z.abs x).

End Int.

Import Int.

(** ** The collaborators *)

(** The result of one [WiFi.scanNetworks] call, as the sketch reads it: the
    returned number and the four per-index accessors. *)
Record WiFiClass := {
  scanNetworks : Z;
  SSID : Z → string;
  RSSI : Z → Z;
  BSSID : Z → list Z;
  BSSIDstr : Z → string
}.

(** One access point of a scan, for building concrete scans. *)
Record AccessPoint := {
  ap_ssid : string;
  ap_rssi : Z;
  ap_bssid : list Z;
  ap_bssidstr : string
}.

Definition no_ap : AccessPoint :=
  {| ap_ssid := ""; ap_rssi := 0; ap_bssid := []; ap_bssidstr := "" |}.

Definition ap_at (aps : list AccessPoint) (i : Z) : AccessPoint :=
  if bool_decide (0 ≤ i) then nth (Z.to_nat i) aps no_ap else no_ap.

(** A successful scan that found the access points [aps], in this order. *)
Definition scan_of (aps : list AccessPoint) : WiFiClass :=
  {| scanNetworks := Z.of_nat (length aps);
     SSID := λ i, ap_ssid (ap_at aps i);
     RSSI := λ i, ap_rssi (ap_at aps i);
     BSSID := λ i, ap_bssid (ap_at aps i);
     BSSIDstr := λ i, ap_bssidstr (ap_at aps i) |}.

(** A scan that returned a status code and no access points. *)
Definition scan_status (code : Z) : WiFiClass :=
  {| scanNetworks := code;
     SSID := λ _, "";
     RSSI := λ _, 0;
     BSSID := λ _, [];
     BSSIDstr := λ _, "" |}.

(** The serial port: the characters written so far. *)
Definition CRLF : string :=
  String (Ascii.ascii_of_nat 13) (String (Ascii.ascii_of_nat 10) EmptyString).

Definition Serial_print (s : string) (out : string) : string := out +:+ s.
Definition Serial_println (s : string) (out : string) : string :=
  out +:+ s +:+ CRLF.

(** ** Globals of the sketch *)

Definition MAC_FILTER : list Z := [0x00; 0x0D; 0x97].

(** [deviceSignalMap] and the serial stream are the state that
    [count_devices] reads and writes. *)
Record Globals := {
  deviceSignalMap : gmap string Z;
  Serial : string
}.

(** The state at the start of the first cycle: the map is default
    constructed, [setup] has printed one empty line. *)
Definition boot : Globals :=
  {| deviceSignalMap := ∅; Serial := Serial_println "" "" |}.

(** ** [count_devices] *)

(** [std::map::insert]: the pair is added only when the key is absent. *)
Definition map_insert (key : string) (v : Z) (m : gmap string Z) : gmap string Z :=
  match m !! key with
  | Some _ => m
  | None => <[key := v]> m
  end.

(** Lines 105-109: find, then assign through the iterator or insert. *)
Definition record_signal (BSSIDstr : string) (RSSI : Z) (m : gmap string Z)
  : gmap string Z :=
  match m !! BSSIDstr with
  | Some second =>
      if bool_decide (second ≠ std_abs RSSI)
      then <[BSSIDstr := std_abs RSSI]> m
      else map_insert BSSIDstr (std_abs RSSI) m
  | None => map_insert BSSIDstr (std_abs RSSI) m
  end.

(** Line 103: the three comparisons joined by [&&]. *)
Definition passes (filter BSSID : list Z) : bool :=
  bool_decide (nth 0 BSSID 0 = nth 0 filter 0)
  && bool_decide (nth 1 BSSID 0 = nth 1 filter 0)
  && bool_decide (nth 2 BSSID 0 = nth 2 filter 0).

(** The variables live inside the loop. *)
Record Frame := {
  fr_map : gmap string Z;
  fr_serial : string;
  num_filtered : Z
}.

(** Lines 86-113: one iteration of the loop, for index [i]. *)
Definition scan_entry (filter : list Z) (w : WiFiClass) (fr : Frame) (i : Z) : Frame :=
  let ssid := SSID w i in
  let rssi := int32 (RSSI w i) in
  let bssid := BSSID w i in
  let bssidstr := BSSIDstr w i in
  let out :=
    Serial_println ""
      (Serial_print ")"
        (Serial_print (pretty rssi)
          (Serial_print " ("
            (Serial_print bssidstr
              (Serial_print " - "
                (Serial_print ssid
                  (Serial_print ": "
                    (Serial_print (pretty (i + 1)) (fr_serial fr))))))))) in
  if passes filter bssid then
    {| fr_map := record_signal bssidstr rssi (fr_map fr);
       fr_serial := out;
       num_filtered := uint16 (num_filtered fr + 1) |}
  else
    {| fr_map := fr_map fr; fr_serial := out; num_filtered := num_filtered fr |}.

(** The loop over the indices [idx]. *)
Definition scan_loop (filter : list Z) (w : WiFiClass) (idx : list Z) (fr : Frame)
  : Frame :=
  foldl (scan_entry filter w) fr idx.

(** The value of [scanResults], an [int16_t]. *)
Definition scanResults (w : WiFiClass) : Z := int16 (scanNetworks w).

(** The frame on entry to the loop: the counter is zero and the line
    announcing the number of results has been printed. *)
Definition loop_entry (w : WiFiClass) (g : Globals) : Frame :=
  {| fr_map := deviceSignalMap g;
     fr_serial :=
       Serial_println " devices."
         (Serial_print (pretty (scanResults w))
           (Serial_print "Found " (Serial g)));
     num_filtered := 0 |}.

(** [count_devices]: the returned count and the globals afterwards.
    [WiFi.scanDelete] frees the scan and changes nothing the sketch
    observes. *)
Definition count_devices (filter : list Z) (w : WiFiClass) (g : Globals)
  : Z * Globals :=
  if bool_decide (scanResults w = 0) then
    (0, {| deviceSignalMap := deviceSignalMap g;
           Serial := Serial_println "No WiFi devices in AP Mode found" (Serial g) |})
  else
    let fr := scan_loop filter w (seqZ 0 (scanResults w)) (loop_entry w g) in
    (num_filtered fr, {| deviceSignalMap := fr_map fr; Serial := fr_serial fr |}).

(** The globals after a run of cycles, one scan per cycle. *)
Definition run_cycles (filter : list Z) (ws : list WiFiClass) (g : Globals) : Globals :=
  foldl (λ g w, (count_devices filter w g).2) g ws.

(** The indices among [idx] whose record passes the filter; the key and
    the reading of record [i]; the filter-passing records of a scan in scan
    order. *)
Definition matching (flt : list Z) (w : WiFiClass) (idx : list Z) : list Z :=
  filter (λ i, passes flt (BSSID w i) = true) idx.

Definition observed (w : WiFiClass) (i : Z) : string * Z :=
  (BSSIDstr w i, int32 (RSSI w i)).

Definition observations (flt : list Z) (w : WiFiClass) : list (string * Z) :=
  observed w <$> matching flt w (seqZ 0 (scanResults w)).

(** The records of a scan other than record [i]. *)
Definition others (w : WiFiClass) (i : Z) : list Z :=
  seqZ 0 i ++ seqZ (i + 1) (scanResults w - (i + 1)).

(** The first three octets of an address are those of the filter. *)
Definition prefix_equal (flt bssid : list Z) : Prop :=
  ∀ j, (j < 3)%nat → nth j bssid 0 = nth j flt 0.

(** Storing the magnitude of an observation under its key. *)
Definition store (m : gmap string Z) (o : string * Z) : gmap string Z :=
  <[o.1 := std_abs o.2]> m.

(** All observations of a run of cycles, oldest first. *)
Definition history (flt : list Z) (ws : list WiFiClass) : list (string * Z) :=
  ws ≫= observations flt.

(** The reading of the most recent observation with key [k]. *)
Definition latest (k : string) (obs : list (string * Z)) : option Z :=
  snd <$> last (filter (λ o, o.1 = k) obs).

(** ** [disp_count] *)

(** The constants the sketch fixes at build time. *)
Record Config := {
  LED_PINS : list Z;
  NUM_PINS : Z;
  DISP_LEDS : bool;
  DISP_OLED : bool
}.

(** Lines 21-22 and 40-41. *)
Definition sketch : Config :=
  {| LED_PINS := [32; 33; 25]; NUM_PINS := 3;
     DISP_LEDS := true; DISP_OLED := true |}.

Inductive Level := HIGH | LOW.

Global Instance Level_eq_dec : EqDecision Level.
Proof. solve_decision. Defined.

(** The calls [disp_count] makes on the GPIO and display drivers. *)
Inductive HwCall :=
| digitalWrite (pin : Z) (val : Level)
| display_clear
| display_drawStringMaxWidth (x y maxLineWidth : Z) (text : string)
| display_display.

(** A piece of text placed on the display. *)
Record Text := {
  text_x : Z;
  text_y : Z;
  text_width : Z;
  text_string : string
}.

(** The output state: the level of every pin written so far, the
    display's drawing buffer and the frame it shows. *)
Record Hardware := {
  pins : gmap Z Level;
  oled_buffer : list Text;
  oled_frame : list Text
}.

(** What each driver call does to the output state. *)
Definition exec (hw : Hardware) (c : HwCall) : Hardware :=
  match c with
  | digitalWrite pin val =>
      {| pins := <[pin := val]> (pins hw);
         oled_buffer := oled_buffer hw; oled_frame := oled_frame hw |}
  | display_clear =>
      {| pins := pins hw; oled_buffer := []; oled_frame := oled_frame hw |}
  | display_drawStringMaxWidth x y width text =>
      {| pins := pins hw;
         oled_buffer := oled_buffer hw ++
           [{| text_x := x; text_y := y; text_width := width; text_string := text |}];
         oled_frame := oled_frame hw |}
  | display_display =>
      {| pins := pins hw; oled_buffer := oled_buffer hw; oled_frame := oled_buffer hw |}
  end.

Definition run (calls : list HwCall) (hw : Hardware) : Hardware :=
  foldl exec hw calls.

(** Lines 133-140: the body of the LED loop for index [i]. *)
Definition led_entry (cfg : Config) (count i : Z) : HwCall :=
  if bool_decide (i < count)
  then digitalWrite (nth (Z.to_nat i) (LED_PINS cfg) 0) HIGH
  else digitalWrite (nth (Z.to_nat i) (LED_PINS cfg) 0) LOW.

(** Lines 132-141. *)
Definition led_loop (cfg : Config) (count : Z) : list HwCall :=
  led_entry cfg count <$> seqZ 0 (NUM_PINS cfg).

(** Line 150. *)
Definition sentence (count : Z) : string :=
  "Found " +:+ pretty count +:+ " devices that passed the filter.".

(** Lines 147-153. *)
Definition oled_calls (count : Z) : list HwCall :=
  [ display_clear;
    display_drawStringMaxWidth 0 8 128 (sentence count);
    display_display ].

(** [disp_count]: the driver calls it makes, in order. *)
Definition disp_count (cfg : Config) (count : Z) : list HwCall :=
  (if DISP_LEDS cfg then led_loop cfg count else [])
  ++ (if DISP_OLED cfg then oled_calls count else []).

(** The LED lines as configured: as many pins as [NUM_PINS] says, all
    different. *)
Definition lamps_wf (cfg : Config) : Prop :=
  NUM_PINS cfg = Z.of_nat (length (LED_PINS cfg)) ∧ NoDup (LED_PINS cfg).

(** The effect of a driver call on the pins alone. *)
Definition written (p : gmap Z Level) (c : HwCall) : gmap Z Level :=
  match c with
  | digitalWrite pin val => <[pin := val]> p
  | _ => p
  end.

(** The calls that go to the display driver. *)
Definition is_display (c : HwCall) : bool :=
  match c with
  | digitalWrite _ _ => false
  | _ => true
  end.

(** ** The serial log *)

(** Lines 92-100: the line printed for record [i]. *)
Definition log_line (w : WiFiClass) (i : Z) : string :=
  pretty (i + 1) +:+ ": " +:+ SSID w i +:+ " - " +:+ BSSIDstr w i
  +:+ " (" +:+ pretty (int32 (RSSI w i)) +:+ ")" +:+ CRLF.

(** Line 82: the line printed before the loop. *)
Definition log_header (w : WiFiClass) : string :=
  "Found " +:+ pretty (scanResults w) +:+ " devices." +:+ CRLF.

Definition concat_lines (lines : list string) : string :=
  foldr String.append "" lines.

(** ** [loop] *)

(** Everything the sketch keeps between cycles: the registry and the
    serial stream, the global [num_devices], the output state. *)
Record Board := {
  globals : Globals;
  num_devices : Z;
  hardware : Hardware
}.

(** Lines 182-193: one cycle on the scan [w].  The delay at the end of
    the cycle changes nothing the sketch observes. *)
Definition loop (cfg : Config) (w : WiFiClass) (b : Board) : Board :=
  let r := count_devices MAC_FILTER w (globals b) in
  let num_devices := r.1 in
  {| globals :=
       {| deviceSignalMap := deviceSignalMap r.2;
          Serial :=
            Serial_println ("Counted " +:+ pretty num_devices +:+ " devices.")
              (Serial r.2) |};
     num_devices := num_devices;
     hardware := run (disp_count cfg num_devices) (hardware b) |}.

(** The board after a run of cycles, one scan per cycle. *)
Definition run_loops (cfg : Config) (ws : list WiFiClass) (b : Board) : Board :=
  foldl (λ b w, loop cfg w b) b ws.

(** The number of records of a scan that pass the sketch's filter. *)
Definition matches (w : WiFiClass) : Z :=
  Z.of_nat (length (matching MAC_FILTER w (seqZ 0 (scanResults w)))).

(** ** [setup] *)

Inductive PinMode := INPUT | OUTPUT.

Inductive Font := ArialMT_Plain_10.

Inductive TextAlignment := TEXT_ALIGN_LEFT.

(** The calls [setup] makes: those of [disp_count] and the ones that
    configure the serial port, the radio, the pins and the display. *)
Inductive SetupCall :=
| Serial_begin (baud : Z)
| Serial_println_empty
| WiFi_persistent (persistent : bool)
| pinMode (pin : Z) (mode : PinMode)
| driver (c : HwCall)
| display_init
| display_flipScreenVertically
| display_setFont (font : Font)
| display_setTextAlignment (alignment : TextAlignment).

(** Lines 166-167: the body of the pin loop of [setup] for index [i]. *)
Definition setup_pin (cfg : Config) (i : Z) : list SetupCall :=
  [ pinMode (nth (Z.to_nat i) (LED_PINS cfg) 0) OUTPUT;
    driver (digitalWrite (nth (Z.to_nat i) (LED_PINS cfg) 0) LOW) ].

(** Lines 157-180. *)
Definition setup (cfg : Config) : list SetupCall :=
  [ Serial_begin 115200; Serial_println_empty; WiFi_persistent false ]
  ++ (if DISP_LEDS cfg then seqZ 0 (NUM_PINS cfg) ≫= setup_pin cfg else [])
  ++ (if DISP_OLED cfg
      then [ display_init; display_flipScreenVertically;
             display_setFont ArialMT_Plain_10;
             display_setTextAlignment TEXT_ALIGN_LEFT;
             driver display_display ]
      else []).

(** The pins as [setup] leaves them: the mode each was given and the level
    last written to it. *)
Record Gpio := {
  gpio_mode : gmap Z PinMode;
  gpio_level : gmap Z Level
}.

Definition configure (s : Gpio) (c : SetupCall) : Gpio :=
  match c with
  | pinMode pin mode =>
      {| gpio_mode := <[pin := mode]> (gpio_mode s); gpio_level := gpio_level s |}
  | driver c =>
      {| gpio_mode := gpio_mode s; gpio_level := written (gpio_level s) c |}
  | _ => s
  end.

Definition run_setup (calls : list SetupCall) (s : Gpio) : Gpio :=
  foldl configure s calls.

(** ** Scenarios *)

(** Two cameras behind the filter, and networks that are not. *)
Definition cam_a (rssi : Z) : AccessPoint :=
  {| ap_ssid := "cam-a"; ap_rssi := rssi;
     ap_bssid := [0x00; 0x0D; 0x97; 0x01; 0x02; 0x03];
     ap_bssidstr := "00:0D:97:01:02:03" |}.

Definition cam_b (rssi : Z) : AccessPoint :=
  {| ap_ssid := "cam-b"; ap_rssi := rssi;
     ap_bssid := [0x00; 0x0D; 0x97; 0x0A; 0x0B; 0x0C];
     ap_bssidstr := "00:0D:97:0A:0B:0C" |}.

Definition other_ap (n rssi : Z) : AccessPoint :=
  {| ap_ssid := "home-" +:+ pretty n; ap_rssi := rssi;
     ap_bssid := [0x00; 0x0D; 0x98; 0x00; 0x00; n];
     ap_bssidstr := "00:0D:98:00:00:0" +:+ pretty n |}.

Definition scenario_A : WiFiClass := scan_of [].
Definition scenario_B : WiFiClass := scan_of [cam_a (-40); cam_b (-70)].
Definition scenario_C : list WiFiClass :=
  [scan_of [cam_a (-40)]; scan_of [cam_a (-55)]].
Definition scenario_D : WiFiClass :=
  scan_of [other_ap 1 (-30); other_ap 2 (-61); cam_a (-48);
           other_ap 3 (-80); other_ap 4 (-90)].

(** No pin written yet, nothing drawn. *)
Definition hw0 : Hardware := {| pins := ∅; oled_buffer := []; oled_frame := [] |}.

(** A board with the globals of the start of the sketch and no output
    yet. *)
Definition board0 : Board :=
  {| globals := boot; num_devices := 0; hardware := hw0 |}.

(** No pin configured yet. *)
Definition gpio0 : Gpio := {| gpio_mode := ∅; gpio_level := ∅ |}.

(** * Properties *)

(** ** Integer ranges *)

Lemma int16_range x : - 2 ^ 15 ≤ int16 x < 2 ^ 15.
Proof.
  unfold int16, signed.
  pose proof (Z.mod_pos_bound (x + 2 ^ (16 - 1)) (2 ^ 16)) as H.
  change (2 ^ (16 - 1)) with 32768 in *. change (2 ^ 16) with 65536 in *.
  change (2 ^ 15) with 32768. lia.
Qed.

Lemma int16_id x : - 2 ^ 15 ≤ x < 2 ^ 15 → int16 x = x.
Proof.
  intros H. unfold int16, signed.
  change (2 ^ (16 - 1)) with 32768. change (2 ^ 16) with 65536.
  change (2 ^ 15) with 32768 in H.
  rewrite Z.mod_small; lia.
Qed.

Lemma int32_range x : INT32_MIN ≤ int32 x < 2 ^ 31.
Proof.
  unfold int32, signed, INT32_MIN.
  pose proof (Z.mod_pos_bound (x + 2 ^ (32 - 1)) (2 ^ 32)) as H.
  change (2 ^ (32 - 1)) with 2147483648 in *.
  change (2 ^ 32) with 4294967296 in *.
  change (2 ^ 31) with 2147483648. lia.
Qed.

Lemma uint16_id x : 0 ≤ x ≤ UINT16_MAX → uint16 x = x.
Proof.
  unfold uint16, unsigned, UINT16_MAX. change (2 ^ 16) with 65536.
  intros H. rewrite Z.mod_small; lia.
Qed.

(** Away from [INT32_MIN], [std_abs] is the absolute value. *)
Lemma std_abs_abs x :
  INT32_MIN < x < 2 ^ 31 → std_abs x = Z.abs x.
Proof.
  unfold std_abs, int32, signed, INT32_MIN.
  change (2 ^ (32 - 1)) with 2147483648.
  change (2 ^ 32) with 4294967296.
  change (2 ^ 31) with 2147483648.
  intros H. rewrite Z.mod_small; lia.
Qed.

Lemma std_abs_min : std_abs INT32_MIN = INT32_MIN.
Proof. reflexivity. Qed.

(** ** The registry update *)

(** The find-assign-or-insert of lines 105-109 stores the magnitude
    under the key, whatever the map held before. *)
Lemma record_signal_insert k r (m : gmap string Z) :
  record_signal k r m = <[k := std_abs r]> m.
Proof.
  unfold record_signal, map_insert.
  destruct (m !! k) as [v|] eqn:Hk; [|done].
  case_bool_decide as Hv; [done|].
  subst v. by rewrite insert_id.
Qed.

(** ** The loop *)

Lemma scan_loop_snoc flt w idx i fr :
  scan_loop flt w (idx ++ [i]) fr = scan_entry flt w (scan_loop flt w idx fr) i.
Proof. unfold scan_loop. by rewrite foldl_app. Qed.

Lemma matching_snoc flt w idx i :
  matching flt w (idx ++ [i]) =
  matching flt w idx ++ (if passes flt (BSSID w i) then [i] else []).
Proof.
  unfold matching. rewrite filter_app. f_equal.
  destruct (passes flt (BSSID w i)) eqn:Hp.
  - by rewrite filter_cons_True.
  - rewrite filter_cons_False; [done|]. by rewrite Hp.
Qed.

Lemma matching_length_le flt w idx :
  (length (matching flt w idx) ≤ length idx)%nat.
Proof. apply length_filter. Qed.

(** The map after the loop: every filter-passing record stored, in order. *)
Lemma scan_loop_map flt w idx fr :
  fr_map (scan_loop flt w idx fr) =
  foldl store (fr_map fr) (observed w <$> matching flt w idx).
Proof.
  induction idx as [|i idx IH] using rev_ind; [done|].
  rewrite scan_loop_snoc, matching_snoc, fmap_app, foldl_app, <- IH.
  unfold scan_entry.
  destruct (passes flt (BSSID w i)); simpl; [|done].
  by rewrite record_signal_insert.
Qed.

(** The counter after the loop, as long as it stays within [uint16_t]. *)
Lemma scan_loop_count flt w idx fr :
  0 ≤ num_filtered fr →
  num_filtered fr + Z.of_nat (length idx) ≤ UINT16_MAX →
  num_filtered (scan_loop flt w idx fr) =
  num_filtered fr + Z.of_nat (length (matching flt w idx)).
Proof.
  intros H0. induction idx as [|i idx IH] using rev_ind; intros Hmax.
  - simpl. lia.
  - rewrite length_app in Hmax. simpl in Hmax.
    rewrite scan_loop_snoc, matching_snoc, length_app.
    pose proof (matching_length_le flt w idx) as Hle.
    unfold scan_entry.
    destruct (passes flt (BSSID w i)); simpl; rewrite IH by lia.
    + rewrite uint16_id by lia. lia.
    + lia.
Qed.

Lemma scanResults_max w : scanResults w ≤ INT16_MAX.
Proof.
  unfold scanResults, INT16_MAX. pose proof (int16_range (scanNetworks w)). lia.
Qed.

(** The count [count_devices] returns, in both branches. *)
Lemma count_devices_count flt w g :
  (count_devices flt w g).1 =
  Z.of_nat (length (matching flt w (seqZ 0 (scanResults w)))).
Proof.
  unfold count_devices. case_bool_decide as Hz.
  - by rewrite Hz.
  - simpl. pose proof (scanResults_max w) as Hmax. unfold INT16_MAX in Hmax.
    rewrite scan_loop_count; simpl; [lia|lia|].
    rewrite length_seqZ. unfold UINT16_MAX. lia.
Qed.

(** The map [count_devices] leaves, in both branches. *)
Lemma count_devices_map flt w g :
  deviceSignalMap (count_devices flt w g).2 =
  foldl store (deviceSignalMap g) (observations flt w).
Proof.
  unfold count_devices, observations. case_bool_decide as Hz.
  - by rewrite Hz.
  - simpl. by rewrite scan_loop_map.
Qed.

Lemma history_cons flt w ws :
  history flt (w :: ws) = observations flt w ++ history flt ws.
Proof. done. Qed.

Lemma run_cycles_map flt ws g :
  deviceSignalMap (run_cycles flt ws g) =
  foldl store (deviceSignalMap g) (history flt ws).
Proof.
  revert g. induction ws as [|w ws IH]; intros g; [done|].
  rewrite history_cons, foldl_app, <- count_devices_map.
  apply IH.
Qed.

(** ** The filter *)

Lemma passes_prefix_equal flt bssid :
  passes flt bssid = true ↔ prefix_equal flt bssid.
Proof.
  unfold passes, prefix_equal.
  rewrite !andb_true_iff, !bool_decide_eq_true. split.
  - intros [[H0 H1] H2] j Hj.
    destruct j as [|[|[|j]]]; [done|done|done|lia].
  - intros H. repeat split; apply H; lia.
Qed.

Lemma seqZ_split n i :
  0 ≤ i < n → seqZ 0 n = seqZ 0 i ++ i :: seqZ (i + 1) (n - (i + 1)).
Proof.
  intros Hi. replace n with (i + (n - i)) at 1 by lia.
  rewrite seqZ_app by lia. f_equal.
  rewrite seqZ_cons by lia. simpl. f_equal. f_equal; lia.
Qed.

Lemma matching_app flt w idx1 idx2 :
  matching flt w (idx1 ++ idx2) = matching flt w idx1 ++ matching flt w idx2.
Proof. apply filter_app. Qed.

(** The returned count is the count over the other records, plus the
    contribution of record [i]. *)
Lemma count_devices_split flt w g i :
  0 ≤ i < scanResults w →
  (count_devices flt w g).1 =
  Z.of_nat (length (matching flt w (others w i)))
  + (if passes flt (BSSID w i) then 1 else 0).
Proof.
  intros Hi. rewrite count_devices_count, (seqZ_split _ i Hi).
  unfold others.
  change (i :: seqZ (i + 1) (scanResults w - (i + 1)))
    with ([i] ++ seqZ (i + 1) (scanResults w - (i + 1))).
  rewrite !matching_app, !length_app.
  unfold matching at 2.
  destruct (passes flt (BSSID w i)) eqn:Hp.
  - rewrite filter_cons_True by done. simpl. lia.
  - rewrite filter_cons_False by (by rewrite Hp). simpl. lia.
Qed.

(** C1. A record of the scan is counted toward the value [count_devices]
    returns exactly when the first three octets of its address equal the
    three octets of the filter, octet by octet: with record [i] of the scan,
    the returned count is one more than the count over the other records
    if and only if the octets are equal, and it is that count if and only if
    they are not. *)
Theorem filter_correctness flt w g i :
  0 ≤ i < scanResults w →
  ((count_devices flt w g).1 =
     Z.of_nat (length (matching flt w (others w i))) + 1
   ↔ prefix_equal flt (BSSID w i))
  ∧ ((count_devices flt w g).1 =
       Z.of_nat (length (matching flt w (others w i)))
     ↔ ¬ prefix_equal flt (BSSID w i)).
Proof.
  intros Hi. rewrite (count_devices_split flt w g i Hi).
  rewrite <- passes_prefix_equal.
  destruct (passes flt (BSSID w i)); split; split; intros H; try done; lia.
Qed.


(** ** The registry *)

Lemma latest_snoc k obs o :
  latest k (obs ++ [o]) = if decide (o.1 = k) then Some o.2 else latest k obs.
Proof.
  unfold latest. rewrite filter_app. case_decide as Hk.
  - rewrite filter_cons_True by done. rewrite filter_nil.
    by rewrite last_snoc.
  - rewrite filter_cons_False by done. rewrite filter_nil.
    by rewrite app_nil_r.
Qed.

(** A key holds the magnitude of its most recent observation, or what it
    held before when it was not observed. *)
Lemma foldl_store_lookup (m : gmap string Z) obs k :
  foldl store m obs !! k =
  match latest k obs with
  | Some r => Some (std_abs r)
  | None => m !! k
  end.
Proof.
  induction obs as [|o obs IH] using rev_ind; [done|].
  rewrite foldl_app, latest_snoc. simpl. unfold store at 1.
  case_decide as Hk.
  - subst k. by rewrite lookup_insert_eq.
  - by rewrite lookup_insert_ne.
Qed.

Lemma latest_elem_of k r obs :
  latest k obs = Some r → (k, r) ∈ obs.
Proof.
  unfold latest. intros H.
  destruct (last (filter (λ o, o.1 = k) obs)) as [[k' r']|] eqn:Hl; [|done].
  simpl in H. injection H as ->.
  apply last_Some_elem_of, list_elem_of_filter in Hl as [Hk Hin].
  simpl in Hk. by subst k'.
Qed.

Lemma latest_is_Some k obs :
  k ∈ obs.*1 → is_Some (latest k obs).
Proof.
  intros Hin. apply list_elem_of_fmap in Hin as ([k' r] & -> & Hin).
  unfold latest.
  destruct (last (filter (λ o, o.1 = (k', r).1) obs)) eqn:Hl; [by eexists|].
  apply last_None in Hl.
  assert ((k', r) ∈ filter (λ o : string * Z, o.1 = (k', r).1) obs) as Hf
    by (by apply list_elem_of_filter).
  rewrite Hl in Hf. by apply elem_of_nil in Hf.
Qed.

Lemma latest_None k obs :
  k ∉ obs.*1 → latest k obs = None.
Proof.
  intros Hk. destruct (latest k obs) as [r|] eqn:Hl; [|done].
  apply latest_elem_of in Hl. exfalso. apply Hk.
  apply list_elem_of_fmap. by exists (k, r).
Qed.

(** Every observed reading is an [int32_t]. *)
Lemma observations_range flt w :
  Forall (λ o, INT32_MIN ≤ o.2 < 2 ^ 31) (observations flt w).
Proof.
  unfold observations. apply Forall_fmap, Forall_forall. intros i _.
  apply int32_range.
Qed.

Lemma history_range flt ws :
  Forall (λ o, INT32_MIN ≤ o.2 < 2 ^ 31) (history flt ws).
Proof.
  induction ws as [|w ws IH]; [constructor|].
  rewrite history_cons. apply Forall_app. split; [apply observations_range|done].
Qed.

(** A finite map has one entry per key. *)
Lemma map_entries_key (m : gmap string Z) k v :
  m !! k = Some v → filter (λ e, e.1 = k) (map_to_list m) = [(k, v)].
Proof.
  intros Hk. apply Permutation_singleton_r.
  rewrite <- (insert_delete_id m k v Hk) at 1.
  etrans.
  { apply filter_Permutation, map_to_list_insert, lookup_delete_eq. }
  rewrite filter_cons_True by done.
  destruct (filter (λ e : string * Z, e.1 = k) (map_to_list (delete k m)))
    as [|[k' v'] l] eqn:Hf; [done|].
  assert ((k', v') ∈ filter (λ e : string * Z, e.1 = k) (map_to_list (delete k m)))
    as Hin by (rewrite Hf; left).
  apply list_elem_of_filter in Hin as [Heq Hin].
  apply elem_of_map_to_list in Hin. simpl in Heq. subst k'.
  by rewrite lookup_delete_eq in Hin.
Qed.

(** The value under a key after a run of cycles. *)
Lemma registry_lookup flt ws g k :
  deviceSignalMap (run_cycles flt ws g) !! k =
  match latest k (history flt ws) with
  | Some r => Some (std_abs r)
  | None => deviceSignalMap g !! k
  end.
Proof. by rewrite run_cycles_map, foldl_store_lookup. Qed.

(** The latest reading of a key is an [int32_t]. *)
Lemma latest_range flt ws k r :
  latest k (history flt ws) = Some r → INT32_MIN ≤ r < 2 ^ 31.
Proof.
  intros Hl. apply latest_elem_of in Hl.
  pose proof (history_range flt ws) as Hr.
  rewrite Forall_forall in Hr. exact (Hr _ Hl).
Qed.

(** C3, as amended.  Whenever an address string has passed the filter in
    some cycle, the registry after the cycles run so far holds exactly one
    entry under that key; its value is [std::abs] of the most recent
    filter-passing reading of that key, which is the absolute value of the
    reading whenever the reading is not [INT32_MIN]. *)
Theorem registry_latest flt ws g k :
  k ∈ (history flt ws).*1 →
  ∃ rssi,
    latest k (history flt ws) = Some rssi
    ∧ deviceSignalMap (run_cycles flt ws g) !! k = Some (std_abs rssi)
    ∧ filter (λ e, e.1 = k) (map_to_list (deviceSignalMap (run_cycles flt ws g)))
      = [(k, std_abs rssi)]
    ∧ (rssi ≠ INT32_MIN →
       deviceSignalMap (run_cycles flt ws g) !! k = Some (Z.abs rssi)).
Proof.
  intros Hk.
  destruct (latest_is_Some _ _ Hk) as [rssi Hl].
  exists rssi. split; [done|].
  assert (deviceSignalMap (run_cycles flt ws g) !! k = Some (std_abs rssi)) as Hlk
    by (by rewrite registry_lookup, Hl).
  split; [done|]. split; [by apply map_entries_key|].
  intros Hmin. rewrite Hlk. f_equal.
  pose proof (latest_range _ _ _ _ Hl). apply std_abs_abs. lia.
Qed.

(** The registry only gains keys over a call. *)
Lemma foldl_store_dom (m : gmap string Z) obs :
  dom m ⊆ dom (foldl store m obs).
Proof.
  induction obs as [|o obs IH] using rev_ind; [done|].
  rewrite foldl_app. simpl. unfold store at 1. rewrite dom_insert_L.
  set_solver.
Qed.

(** C4. A call of [count_devices] removes no entry of the registry, leaves
    every entry whose key is not the address string of a filter-passing
    record of the current scan as it was, and over any run of cycles the set
    of keys only grows. *)
Theorem registry_frame flt w g :
  dom (deviceSignalMap g) ⊆ dom (deviceSignalMap (count_devices flt w g).2)
  ∧ (∀ k, k ∉ (observations flt w).*1 →
       deviceSignalMap (count_devices flt w g).2 !! k = deviceSignalMap g !! k)
  ∧ (∀ ws, dom (deviceSignalMap g) ⊆ dom (deviceSignalMap (run_cycles flt ws g))).
Proof.
  split; [|split].
  - rewrite count_devices_map. apply foldl_store_dom.
  - intros k Hk. rewrite count_devices_map, foldl_store_lookup.
    by rewrite latest_None.
  - intros ws. rewrite run_cycles_map. apply foldl_store_dom.
Qed.

(** C5, as amended.  After any run of [count_devices] calls from the start
    of the sketch, every value in the registry is [std::abs] of the most
    recent filter-passing reading of its key; whenever that reading is not
    [INT32_MIN] the value is the absolute value of the reading and so is
    non-negative. *)
Theorem magnitude_invariant flt ws k v :
  deviceSignalMap (run_cycles flt ws boot) !! k = Some v →
  ∃ rssi,
    latest k (history flt ws) = Some rssi
    ∧ v = std_abs rssi
    ∧ (rssi ≠ INT32_MIN → v = Z.abs rssi ∧ 0 ≤ v).
Proof.
  rewrite registry_lookup.
  destruct (latest k (history flt ws)) as [r|] eqn:Hl.
  - intros [= <-]. exists r. split; [done|]. split; [done|].
    intros Hmin. pose proof (latest_range _ _ _ _ Hl).
    rewrite std_abs_abs by lia. lia.
  - simpl. by rewrite lookup_empty.
Qed.

(** C8. A scan that reports zero networks is not an error: the note is
    printed, the registry is left as it was and the count is 0. *)
Theorem empty_scan flt w g :
  scanNetworks w = 0 →
  count_devices flt w g =
  (0, {| deviceSignalMap := deviceSignalMap g;
         Serial := Serial_println "No WiFi devices in AP Mode found" (Serial g) |}).
Proof.
  intros H0. unfold count_devices, scanResults. rewrite H0.
  by rewrite bool_decide_eq_true_2.
Qed.

(** C10. A scan that returns a negative status code gives the count 0 and
    leaves the registry as it was: the loop does not run.  The serial port
    gets the line announcing the number of devices, with the negative
    number in it, and not the no-devices note. *)
Theorem negative_status flt w g :
  - 2 ^ 15 ≤ scanNetworks w < 0 →
  count_devices flt w g =
  (0, {| deviceSignalMap := deviceSignalMap g;
         Serial :=
           Serial_println " devices."
             (Serial_print (pretty (scanNetworks w))
               (Serial_print "Found " (Serial g))) |}).
Proof.
  intros Hn. unfold count_devices, scanResults.
  rewrite int16_id by lia.
  rewrite bool_decide_eq_false_2 by lia.
  rewrite seqZ_nil by lia. simpl. unfold scanResults.
  rewrite int16_id by lia. done.
Qed.

(** ** The presentation *)

Lemma run_app t1 t2 hw : run (t1 ++ t2) hw = run t2 (run t1 hw).
Proof. apply foldl_app. Qed.

Lemma run_pins t hw : pins (run t hw) = foldl written (pins hw) t.
Proof.
  induction t as [|c t IH] using rev_ind; [done|].
  rewrite run_app, foldl_app. simpl. rewrite <- IH.
  by destruct c.
Qed.

(** The pin writes of a trace override what the pins held before. *)
Lemma foldl_written_union t (p : gmap Z Level) :
  foldl written p t = foldl written ∅ t ∪ p.
Proof.
  induction t as [|c t IH] using rev_ind.
  - simpl. by rewrite (left_id_L ∅ (∪)).
  - rewrite !foldl_app. simpl. rewrite IH.
    destruct c; simpl; try done.
    by rewrite insert_union_l.
Qed.

Lemma foldl_written_idemp t (p : gmap Z Level) :
  foldl written (foldl written p t) t = foldl written p t.
Proof.
  rewrite (foldl_written_union t (foldl written p t)).
  rewrite (foldl_written_union t p).
  by rewrite (assoc_L (∪)), (idemp_L (∪)).
Qed.

Lemma led_entry_level cfg count i :
  led_entry cfg count i =
  digitalWrite (nth (Z.to_nat i) (LED_PINS cfg) 0)
    (if bool_decide (i < count) then HIGH else LOW).
Proof. unfold led_entry. by case_bool_decide. Qed.

(** The LED loop does not touch the display. *)
Lemma run_leds_display cfg count idx hw :
  oled_buffer (run (led_entry cfg count <$> idx) hw) = oled_buffer hw
  ∧ oled_frame (run (led_entry cfg count <$> idx) hw) = oled_frame hw.
Proof.
  induction idx as [|i idx IH] using rev_ind; [done|].
  rewrite fmap_app, run_app. simpl. rewrite led_entry_level. simpl.
  exact IH.
Qed.

(** The three display calls leave the sentence as the only content of the
    buffer and of the frame, whatever was there. *)
Lemma run_oled count hw :
  run (oled_calls count) hw =
  {| pins := pins hw;
     oled_buffer :=
       [{| text_x := 0; text_y := 8; text_width := 128;
           text_string := sentence count |}];
     oled_frame :=
       [{| text_x := 0; text_y := 8; text_width := 128;
           text_string := sentence count |}] |}.
Proof. reflexivity. Qed.

Lemma Hardware_eq (a b : Hardware) :
  pins a = pins b → oled_buffer a = oled_buffer b → oled_frame a = oled_frame b →
  a = b.
Proof. destruct a, b. simpl. by intros -> -> ->. Qed.

(** C7. [disp_count] is idempotent: after a second call with the same
    count the pins, the display buffer and the frame shown are what they
    were after the first. *)
Theorem presentation_idempotent cfg count hw :
  run (disp_count cfg count) (run (disp_count cfg count) hw)
  = run (disp_count cfg count) hw.
Proof.
  apply Hardware_eq.
  - rewrite !run_pins. apply foldl_written_idemp.
  - unfold disp_count. rewrite !run_app.
    destruct (DISP_OLED cfg).
    + by rewrite !run_oled.
    + simpl. destruct (DISP_LEDS cfg); [|done].
      unfold led_loop. by rewrite !(proj1 (run_leds_display _ _ _ _)).
  - unfold disp_count. rewrite !run_app.
    destruct (DISP_OLED cfg).
    + by rewrite !run_oled.
    + simpl. destruct (DISP_LEDS cfg); [|done].
      unfold led_loop. by rewrite !(proj2 (run_leds_display _ _ _ _)).
Qed.

(** With as many pins as [NUM_PINS] says, the LED loop writes each
    configured pin once, in the order of [LED_PINS]. *)
Lemma led_loop_imap cfg count :
  NUM_PINS cfg = Z.of_nat (length (LED_PINS cfg)) →
  led_loop cfg count =
  imap (λ i pin,
          digitalWrite pin (if bool_decide (Z.of_nat i < count) then HIGH else LOW))
       (LED_PINS cfg).
Proof.
  intros Hn. unfold led_loop. rewrite Hn. apply list_eq. intros i.
  rewrite list_lookup_fmap, list_lookup_imap.
  destruct (LED_PINS cfg !! i) as [pin|] eqn:Hi; simpl.
  - assert (Z.of_nat i < Z.of_nat (length (LED_PINS cfg))) as Hlt
      by (apply lookup_lt_Some in Hi; lia).
    rewrite (lookup_seqZ_lt _ _ _ Hlt). simpl.
    rewrite led_entry_level, Z.add_0_l, Nat2Z.id.
    f_equal. f_equal. by apply nth_lookup_Some with (d := 0) in Hi.
  - apply lookup_ge_None in Hi.
    rewrite lookup_seqZ_ge by lia. done.
Qed.

(** After writing distinct pins in order, each holds the level written
    to it. *)
Lemma written_imap (f : nat → Level) (l : list Z) (p : gmap Z Level) i pin :
  NoDup l → l !! i = Some pin →
  foldl written p (imap (λ i pin, digitalWrite pin (f i)) l) !! pin = Some (f i).
Proof.
  induction l as [|x l IH] using rev_ind; intros Hnd Hi; [done|].
  apply NoDup_app in Hnd as (Hnd & Hx & _).
  rewrite imap_app, foldl_app. simpl. rewrite Nat.add_0_r.
  destruct (decide (i < length l)%nat) as [Hlt|Hge].
  - rewrite lookup_app_l in Hi by done.
    assert (x ≠ pin) as Hne.
    { intros ->. apply (Hx pin); [by eapply list_elem_of_lookup_2|left]. }
    rewrite lookup_insert_ne by done. by apply IH.
  - rewrite lookup_app_r in Hi by lia.
    destruct (i - length l)%nat as [|n] eqn:Hd; [|by destruct n].
    simpl in Hi. injection Hi as ->.
    replace i with (length l) by lia.
    by rewrite lookup_insert_eq.
Qed.

(** At or above [NUM_PINS], the count no longer changes the LED calls. *)
Lemma led_loop_saturates cfg count :
  NUM_PINS cfg ≤ count → led_loop cfg count = led_loop cfg (NUM_PINS cfg).
Proof.
  intros Hc. unfold led_loop. apply list_fmap_ext.
  intros n i Hi. apply lookup_seqZ in Hi as [-> Hlt].
  rewrite !led_entry_level.
  rewrite !bool_decide_eq_true_2 by lia. done.
Qed.

Lemma disp_count_pins cfg count hw :
  DISP_LEDS cfg = true →
  pins (run (disp_count cfg count) hw) = foldl written (pins hw) (led_loop cfg count).
Proof.
  intros Hl. unfold disp_count. rewrite Hl, run_app.
  destruct (DISP_OLED cfg).
  - rewrite run_oled. simpl. apply run_pins.
  - simpl. apply run_pins.
Qed.

(** C6. With the LEDs enabled and a count [C >= 0], [disp_count] leaves
    the first [min C N] of the [N] configured lines active and the others
    inactive, and a count of [N] or more gives the pins the state that [N]
    gives. *)
Theorem saturating_lamps cfg count hw :
  DISP_LEDS cfg = true →
  lamps_wf cfg →
  0 ≤ count ≤ UINT16_MAX →
  (∀ (i : nat) pin, LED_PINS cfg !! i = Some pin →
     pins (run (disp_count cfg count) hw) !! pin =
     Some (if bool_decide (Z.of_nat i < Z.min count (NUM_PINS cfg))
           then HIGH else LOW))
  ∧ (NUM_PINS cfg ≤ count →
     pins (run (disp_count cfg count) hw)
     = pins (run (disp_count cfg (NUM_PINS cfg)) hw)).
Proof.
  intros Hl [Hn Hnd] Hc. split.
  - intros i pin Hi. rewrite disp_count_pins, led_loop_imap by done.
    rewrite (written_imap
               (λ i, if bool_decide (Z.of_nat i < count) then HIGH else LOW)
               _ _ i pin Hnd Hi).
    apply lookup_lt_Some in Hi.
    f_equal. repeat case_bool_decide; try done; lia.
  - intros Hsat. rewrite !disp_count_pins by done.
    by rewrite led_loop_saturates.
Qed.

Lemma led_loop_no_display cfg count :
  filter (λ c, is_display c = true) (led_loop cfg count) = [].
Proof.
  unfold led_loop.
  induction (seqZ 0 (NUM_PINS cfg)) as [|i idx IH]; [done|].
  rewrite fmap_cons, filter_cons_False; [done|].
  by rewrite led_entry_level.
Qed.

(** C9. With the display enabled, the display calls of [disp_count] are,
    in this order, the clear, the drawing of the sentence
    "Found C devices that passed the filter." with the count in decimal, and
    the commit; afterwards the frame shows that sentence and nothing else,
    whatever it showed before.  For the count 0 the sentence is
    "Found 0 devices that passed the filter.". *)
Theorem display_sentence cfg count hw :
  DISP_OLED cfg = true →
  0 ≤ count ≤ UINT16_MAX →
  filter (λ c, is_display c = true) (disp_count cfg count)
  = [ display_clear;
      display_drawStringMaxWidth 0 8 128
        ("Found " +:+ pretty count +:+ " devices that passed the filter.");
      display_display ]
  ∧ oled_frame (run (disp_count cfg count) hw)
    = [ {| text_x := 0; text_y := 8; text_width := 128;
           text_string :=
             "Found " +:+ pretty count +:+ " devices that passed the filter." |} ]
  ∧ sentence 0 = "Found 0 devices that passed the filter.".
Proof.
  intros Ho _. unfold disp_count. rewrite Ho. split; [|split].
  - rewrite filter_app. destruct (DISP_LEDS cfg).
    + by rewrite led_loop_no_display.
    + done.
  - by rewrite run_app, run_oled.
  - reflexivity.
Qed.

(** ** The scenarios *)

Example scenario_A_count :
  (count_devices MAC_FILTER scenario_A boot).1 = 0.
Proof. reflexivity. Qed.

Example scenario_A_lamps :
  pins (run (disp_count sketch 0) hw0) = {[ 32 := LOW; 33 := LOW; 25 := LOW ]}.
Proof. by vm_compute. Qed.

Example scenario_A_display :
  oled_frame (run (disp_count sketch 0) hw0)
  = [ {| text_x := 0; text_y := 8; text_width := 128;
         text_string := "Found 0 devices that passed the filter." |} ].
Proof. reflexivity. Qed.

Example scenario_B_count :
  (count_devices MAC_FILTER scenario_B boot).1 = 2.
Proof. reflexivity. Qed.

Example scenario_B_registry :
  deviceSignalMap (count_devices MAC_FILTER scenario_B boot).2
  = {[ "00:0D:97:01:02:03" := 40; "00:0D:97:0A:0B:0C" := 70 ]}.
Proof. by vm_compute. Qed.

Example scenario_B_serial :
  Serial (count_devices MAC_FILTER scenario_B boot).2
  = CRLF +:+ "Found 2 devices." +:+ CRLF
    +:+ "1: cam-a - 00:0D:97:01:02:03 (-40)" +:+ CRLF
    +:+ "2: cam-b - 00:0D:97:0A:0B:0C (-70)" +:+ CRLF.
Proof. reflexivity. Qed.

Example scenario_B_lamps :
  disp_count sketch 2
  = [ digitalWrite 32 HIGH; digitalWrite 33 HIGH; digitalWrite 25 LOW;
      display_clear;
      display_drawStringMaxWidth 0 8 128 "Found 2 devices that passed the filter.";
      display_display ].
Proof. reflexivity. Qed.

Example scenario_C_registry :
  deviceSignalMap (run_cycles MAC_FILTER (take 1 scenario_C) boot)
    !! "00:0D:97:01:02:03" = Some 40
  ∧ deviceSignalMap (run_cycles MAC_FILTER scenario_C boot)
    !! "00:0D:97:01:02:03" = Some 55.
Proof. split; by vm_compute. Qed.

Example scenario_D_count :
  (count_devices MAC_FILTER scenario_D boot).1 = 1
  ∧ deviceSignalMap (count_devices MAC_FILTER scenario_D boot).2
    = {[ "00:0D:97:01:02:03" := 48 ]}.
Proof. split; by vm_compute. Qed.

(** The same reading twice: the second call takes the [insert] branch,
    which leaves the entry as it is. *)
Example same_reading_twice :
  deviceSignalMap
    (run_cycles MAC_FILTER [scan_of [cam_a (-40)]; scan_of [cam_a (-40)]] boot)
  = {[ "00:0D:97:01:02:03" := 40 ]}.
Proof. by vm_compute. Qed.

(** ** Instances *)

Lemma filter_correctness_witness :
  0 ≤ 2 < scanResults scenario_D
  ∧ (((count_devices MAC_FILTER scenario_D boot).1 =
        Z.of_nat (length (matching MAC_FILTER scenario_D (others scenario_D 2))) + 1
      ↔ prefix_equal MAC_FILTER (BSSID scenario_D 2))
     ∧ ((count_devices MAC_FILTER scenario_D boot).1 =
          Z.of_nat (length (matching MAC_FILTER scenario_D (others scenario_D 2)))
        ↔ ¬ prefix_equal MAC_FILTER (BSSID scenario_D 2))).
Proof.
  assert (0 ≤ 2 < scanResults scenario_D) as H by (vm_compute; split; congruence).
  split; [exact H|]. exact (filter_correctness MAC_FILTER scenario_D boot 2 H).
Defined.

Lemma registry_latest_witness :
  ∃ rssi,
    latest "00:0D:97:01:02:03" (history MAC_FILTER scenario_C) = Some rssi
    ∧ deviceSignalMap (run_cycles MAC_FILTER scenario_C boot)
        !! "00:0D:97:01:02:03" = Some (std_abs rssi)
    ∧ filter (λ e, e.1 = "00:0D:97:01:02:03")
        (map_to_list (deviceSignalMap (run_cycles MAC_FILTER scenario_C boot)))
      = [("00:0D:97:01:02:03", std_abs rssi)]
    ∧ (rssi ≠ INT32_MIN →
       deviceSignalMap (run_cycles MAC_FILTER scenario_C boot)
         !! "00:0D:97:01:02:03" = Some (Z.abs rssi)).
Proof.
  apply (registry_latest MAC_FILTER scenario_C boot "00:0D:97:01:02:03").
  vm_compute. left.
Defined.

(** A reading of [INT32_MIN]: the entry then holds [INT32_MIN], which is
    not the absolute value of the reading. *)
Lemma registry_latest_counterexample :
  "00:0D:97:01:02:03" ∈ (history MAC_FILTER [scan_of [cam_a INT32_MIN]]).*1
  ∧ latest "00:0D:97:01:02:03" (history MAC_FILTER [scan_of [cam_a INT32_MIN]])
    = Some INT32_MIN
  ∧ deviceSignalMap (run_cycles MAC_FILTER [scan_of [cam_a INT32_MIN]] boot)
      !! "00:0D:97:01:02:03" = Some (-2147483648)
  ∧ deviceSignalMap (run_cycles MAC_FILTER [scan_of [cam_a INT32_MIN]] boot)
      !! "00:0D:97:01:02:03" ≠ Some (Z.abs INT32_MIN).
Proof.
  split; [vm_compute; left|]. split; [by vm_compute|].
  split; [by vm_compute|]. vm_compute. discriminate.
Qed.

Lemma magnitude_invariant_witness :
  deviceSignalMap (run_cycles MAC_FILTER [scenario_B; scenario_D] boot)
    !! "00:0D:97:01:02:03" = Some 48
  ∧ ∃ rssi,
      latest "00:0D:97:01:02:03" (history MAC_FILTER [scenario_B; scenario_D])
      = Some rssi
      ∧ 48 = std_abs rssi
      ∧ (rssi ≠ INT32_MIN → 48 = Z.abs rssi ∧ 0 ≤ 48).
Proof.
  assert (deviceSignalMap (run_cycles MAC_FILTER [scenario_B; scenario_D] boot)
            !! "00:0D:97:01:02:03" = Some 48) as Hk
    by (vm_compute; reflexivity).
  split; [exact Hk|].
  exact (magnitude_invariant MAC_FILTER [scenario_B; scenario_D]
           "00:0D:97:01:02:03" 48 Hk).
Defined.

(** A reading of [INT32_MIN]: the value stored is negative. *)
Lemma magnitude_invariant_counterexample :
  ∃ k v,
    deviceSignalMap (run_cycles MAC_FILTER [scan_of [cam_a INT32_MIN]] boot) !! k
    = Some v
    ∧ v < 0.
Proof.
  exists "00:0D:97:01:02:03", (-2147483648).
  split; [by vm_compute|]. lia.
Qed.

Lemma saturating_lamps_witness :
  (∀ (i : nat) pin, LED_PINS sketch !! i = Some pin →
     pins (run (disp_count sketch 5) hw0) !! pin =
     Some (if bool_decide (Z.of_nat i < Z.min 5 (NUM_PINS sketch))
           then HIGH else LOW))
  ∧ (NUM_PINS sketch ≤ 5 →
     pins (run (disp_count sketch 5) hw0)
     = pins (run (disp_count sketch (NUM_PINS sketch)) hw0)).
Proof.
  apply (saturating_lamps sketch 5 hw0).
  - reflexivity.
  - split; [reflexivity|]. compute_done.
  - unfold UINT16_MAX. lia.
Defined.

Lemma empty_scan_witness :
  count_devices MAC_FILTER scenario_A boot =
  (0, {| deviceSignalMap := deviceSignalMap boot;
         Serial := Serial_println "No WiFi devices in AP Mode found" (Serial boot) |}).
Proof. apply (empty_scan MAC_FILTER scenario_A boot). reflexivity. Defined.

Lemma display_sentence_witness :
  filter (λ c, is_display c = true) (disp_count sketch 0)
  = [ display_clear;
      display_drawStringMaxWidth 0 8 128
        ("Found " +:+ pretty 0 +:+ " devices that passed the filter.");
      display_display ]
  ∧ oled_frame (run (disp_count sketch 0) hw0)
    = [ {| text_x := 0; text_y := 8; text_width := 128;
           text_string :=
             "Found " +:+ pretty 0 +:+ " devices that passed the filter." |} ]
  ∧ sentence 0 = "Found 0 devices that passed the filter.".
Proof.
  apply (display_sentence sketch 0 hw0).
  - reflexivity.
  - unfold UINT16_MAX. lia.
Defined.

Lemma negative_status_witness :
  count_devices MAC_FILTER (scan_status (-2)) boot =
  (0, {| deviceSignalMap := deviceSignalMap boot;
         Serial :=
           Serial_println " devices."
             (Serial_print (pretty (scanNetworks (scan_status (-2))))
               (Serial_print "Found " (Serial boot))) |}).
Proof.
  apply (negative_status MAC_FILTER (scan_status (-2)) boot). simpl. lia.
Defined.

(** * Further properties of [count_devices] *)

(** X1. Whichever of the three paths of lines 105-109 runs, the key then
    holds the magnitude of the reading, every other key holds what it held,
    and the map has gained at most one entry. *)
Theorem record_signal_lookup k r (m : gmap string Z) :
  record_signal k r m !! k = Some (std_abs r)
  ∧ (∀ k', k' ≠ k → record_signal k r m !! k' = m !! k')
  ∧ (size m ≤ size (record_signal k r m) ≤ S (size m))%nat.
Proof.
  rewrite record_signal_insert. split; [|split].
  - apply lookup_insert_eq.
  - intros k' Hne. by apply lookup_insert_ne.
  - rewrite map_size_insert. destruct (m !! k) eqn:Hk; simpl; [|lia].
    assert (size m ≠ 0)%nat; [|lia].
    intros Hz. apply map_size_empty_iff in Hz. subst m.
    by rewrite lookup_empty in Hk.
Qed.

(** X2. The returned count is never negative, never more than the number
    of records the scan reported, and fits the [int16_t] the scan result is
    held in. *)
Theorem count_bounds flt w g :
  0 ≤ (count_devices flt w g).1 ≤ Z.max 0 (scanResults w)
  ∧ (count_devices flt w g).1 ≤ INT16_MAX.
Proof.
  rewrite count_devices_count.
  pose proof (matching_length_le flt w (seqZ 0 (scanResults w))) as Hle.
  rewrite length_seqZ in Hle.
  pose proof (scanResults_max w) as Hmax. unfold INT16_MAX in *. lia.
Qed.

Lemma foldl_store_dom_eq (m : gmap string Z) obs :
  dom (foldl store m obs) = dom m ∪ list_to_set obs.*1.
Proof.
  induction obs as [|o obs IH] using rev_ind.
  - simpl. by rewrite (right_id_L ∅ (∪)).
  - rewrite foldl_app. simpl. unfold store at 1.
    rewrite dom_insert_L, IH, fmap_app, list_to_set_app_L. simpl.
    rewrite (right_id_L ∅ (∪)), (comm_L (∪) {[o.1]}).
    by rewrite (assoc_L (∪)).
Qed.

(** X3. The keys of the registry after a call are the keys before it
    together with the address strings of the filter-passing records of the
    scan: a record that fails the filter never adds a key. *)
Theorem registry_keys flt w g :
  dom (deviceSignalMap (count_devices flt w g).2)
  = dom (deviceSignalMap g) ∪ list_to_set (observations flt w).*1.
Proof. rewrite count_devices_map. apply foldl_store_dom_eq. Qed.

Lemma foldl_store_size (m : gmap string Z) obs :
  (size (foldl store m obs) ≤ size m + length obs)%nat.
Proof.
  induction obs as [|o obs IH] using rev_ind; [simpl; lia|].
  rewrite foldl_app, length_app. simpl. unfold store at 1.
  rewrite map_size_insert.
  destruct (foldl store m obs !! o.1); simpl; lia.
Qed.

(** X4. A call adds at most as many entries to the registry as the count
    it returns (records with the same address string are counted each but
    share one entry). *)
Theorem registry_growth flt w g :
  Z.of_nat (size (deviceSignalMap (count_devices flt w g).2))
  ≤ Z.of_nat (size (deviceSignalMap g)) + (count_devices flt w g).1.
Proof.
  rewrite count_devices_map, count_devices_count.
  pose proof (foldl_store_size (deviceSignalMap g) (observations flt w)) as H.
  unfold observations in H at 2. rewrite length_fmap in H. lia.
Qed.

(** X5. Scanning the same networks again changes nothing in the registry:
    a second call on the same scan result leaves the map the first call
    left. *)
Theorem rescan_idempotent flt w g :
  deviceSignalMap (count_devices flt w (count_devices flt w g).2).2
  = deviceSignalMap (count_devices flt w g).2.
Proof.
  rewrite (count_devices_map flt w (count_devices flt w g).2).
  rewrite count_devices_map. apply map_eq. intros k.
  rewrite !foldl_store_lookup.
  by destruct (latest k (observations flt w)).
Qed.

(** X6. From the start of the sketch, the keys of the registry are
    exactly the address strings that passed the filter in some cycle. *)
Theorem registry_keys_history flt ws :
  dom (deviceSignalMap (run_cycles flt ws boot))
  = list_to_set (history flt ws).*1.
Proof.
  rewrite run_cycles_map, foldl_store_dom_eq. simpl.
  by rewrite dom_empty_L, (left_id_L ∅ (∪)).
Qed.

(** X7. For a three-octet filter and an address of at least three octets,
    the test of line 103 holds exactly when the first three octets of the
    address are the filter: the octets after the third play no part. *)
Theorem passes_take flt bssid :
  length flt = 3%nat →
  (3 ≤ length bssid)%nat →
  passes flt bssid = true ↔ take 3 bssid = flt.
Proof.
  intros Hf Hb.
  destruct flt as [|f0 [|f1 [|f2 [|? ?]]]]; try done.
  destruct bssid as [|b0 [|b1 [|b2 rest]]]; simpl in Hb; try lia.
  unfold passes. simpl.
  rewrite !andb_true_iff, !bool_decide_eq_true. split.
  - by intros [[-> ->] ->].
  - by intros [= -> -> ->].
Qed.

Lemma passes_take_witness :
  length MAC_FILTER = 3%nat
  ∧ (3 ≤ length [0x00; 0x0D; 0x97; 0x01; 0x02; 0x03])%nat
  ∧ (passes MAC_FILTER [0x00; 0x0D; 0x97; 0x01; 0x02; 0x03] = true
     ↔ take 3 [0x00; 0x0D; 0x97; 0x01; 0x02; 0x03] = MAC_FILTER).
Proof.
  assert (length MAC_FILTER = 3%nat) as Hf by reflexivity.
  assert (3 ≤ length [0x00; 0x0D; 0x97; 0x01; 0x02; 0x03])%nat as Hb
    by (simpl; lia).
  split; [exact Hf|]. split; [exact Hb|].
  exact (passes_take MAC_FILTER [0x00; 0x0D; 0x97; 0x01; 0x02; 0x03] Hf Hb).
Defined.

(** ** The serial log *)

Lemma string_app_assoc (s1 s2 s3 : string) :
  (s1 +:+ s2) +:+ s3 = s1 +:+ (s2 +:+ s3).
Proof.
  induction s1 as [|c s1 IH]; [done|].
  change (String c ((s1 +:+ s2) +:+ s3) = String c (s1 +:+ (s2 +:+ s3))).
  by rewrite IH.
Qed.

Lemma string_app_nil_r (s : string) : s +:+ "" = s.
Proof.
  induction s as [|c s IH]; [done|].
  change (String c (s +:+ "") = String c s). by rewrite IH.
Qed.

Lemma concat_lines_snoc lines l :
  concat_lines (lines ++ [l]) = concat_lines lines +:+ l.
Proof.
  induction lines as [|x lines IH]; simpl.
  - apply string_app_nil_r.
  - unfold concat_lines in *. simpl. by rewrite IH, string_app_assoc.
Qed.

Lemma scan_entry_serial flt w fr i :
  fr_serial (scan_entry flt w fr i) = fr_serial fr +:+ log_line w i.
Proof.
  unfold scan_entry, log_line, Serial_println, Serial_print.
  destruct (passes flt (BSSID w i)); simpl fr_serial;
    by rewrite !string_app_assoc.
Qed.

(** The loop prints one line per record visited, in order. *)
Lemma scan_loop_serial flt w idx fr :
  fr_serial (scan_loop flt w idx fr)
  = fr_serial fr +:+ concat_lines (log_line w <$> idx).
Proof.
  induction idx as [|i idx IH] using rev_ind.
  - simpl. by rewrite string_app_nil_r.
  - rewrite scan_loop_snoc, scan_entry_serial, IH.
    rewrite fmap_app. change (log_line w <$> [i]) with [log_line w i].
    by rewrite concat_lines_snoc, string_app_assoc.
Qed.

(** X8. When the scan reports a number of records other than zero, the
    call appends to the serial stream the line announcing that number and
    then one line per record, in scan order, giving its position, name,
    address string and reading.  What is printed depends neither on the
    filter nor on the registry. *)
Theorem serial_log flt w g :
  scanResults w ≠ 0 →
  Serial (count_devices flt w g).2
  = Serial g +:+ log_header w
    +:+ concat_lines (log_line w <$> seqZ 0 (scanResults w)).
Proof.
  intros Hn. unfold count_devices.
  rewrite bool_decide_eq_false_2 by done. simpl.
  rewrite scan_loop_serial. unfold loop_entry, log_header. simpl fr_serial.
  unfold Serial_println, Serial_print.
  by rewrite !string_app_assoc.
Qed.

Lemma serial_log_witness :
  scanResults scenario_B ≠ 0
  ∧ Serial (count_devices MAC_FILTER scenario_B boot).2
    = Serial boot +:+ log_header scenario_B
      +:+ concat_lines (log_line scenario_B <$> seqZ 0 (scanResults scenario_B)).
Proof.
  assert (scanResults scenario_B ≠ 0) as Hn by (vm_compute; discriminate).
  split; [exact Hn|]. exact (serial_log MAC_FILTER scenario_B boot Hn).
Defined.

(** * Further properties of [disp_count] *)

(** A pin that no call of a trace writes keeps its level. *)
Lemma written_other t (p : gmap Z Level) pin :
  (∀ v, digitalWrite pin v ∉ t) →
  foldl written p t !! pin = p !! pin.
Proof.
  induction t as [|c t IH] using rev_ind; intros Hno; [done|].
  rewrite foldl_app. simpl.
  assert (foldl written p t !! pin = p !! pin) as <-.
  { apply IH. intros v Hin. apply (Hno v), elem_of_app. by left. }
  destruct c as [pin' v| | |]; simpl; try done.
  apply lookup_insert_ne. intros ->.
  apply (Hno v), elem_of_app. right. left.
Qed.

Lemma led_loop_pins cfg count pin v :
  NUM_PINS cfg ≤ Z.of_nat (length (LED_PINS cfg)) →
  digitalWrite pin v ∈ led_loop cfg count → pin ∈ LED_PINS cfg.
Proof.
  intros Hn Hin. unfold led_loop in Hin.
  apply list_elem_of_fmap in Hin as (i & Heq & Hi).
  apply elem_of_seqZ in Hi. rewrite led_entry_level in Heq.
  injection Heq as -> _.
  apply list_elem_of_In, nth_In. lia.
Qed.

(** X9. With no more lines declared than [LED_PINS] has entries,
    [disp_count] leaves every pin that is not one of [LED_PINS] at the
    level it had. *)
Theorem lamps_frame cfg count hw pin :
  NUM_PINS cfg ≤ Z.of_nat (length (LED_PINS cfg)) →
  pin ∉ LED_PINS cfg →
  pins (run (disp_count cfg count) hw) !! pin = pins hw !! pin.
Proof.
  intros Hn Hpin. rewrite run_pins. apply written_other.
  intros v Hin. unfold disp_count in Hin.
  apply elem_of_app in Hin as [Hin|Hin].
  - destruct (DISP_LEDS cfg); [|by apply elem_of_nil in Hin].
    by apply Hpin, (led_loop_pins cfg count pin v).
  - destruct (DISP_OLED cfg); [|by apply elem_of_nil in Hin].
    unfold oled_calls in Hin.
    repeat (apply elem_of_cons in Hin as [Hin|Hin]; [done|]).
    by apply elem_of_nil in Hin.
Qed.

Lemma lamps_frame_witness :
  NUM_PINS sketch ≤ Z.of_nat (length (LED_PINS sketch))
  ∧ (26 ∉ LED_PINS sketch)
  ∧ pins (run (disp_count sketch 2) hw0) !! 26 = pins hw0 !! 26.
Proof.
  assert (NUM_PINS sketch ≤ Z.of_nat (length (LED_PINS sketch))) as Hn
    by (simpl; lia).
  assert (26 ∉ LED_PINS sketch) as Hpin by compute_done.
  split; [exact Hn|]. split; [exact Hpin|].
  exact (lamps_frame sketch 2 hw0 26 Hn Hpin).
Defined.

(** X10. Each flag gates its own channel: with the LEDs disabled
    [disp_count] leaves every pin as it was, and with the display disabled
    it leaves the drawing buffer and the frame shown as they were. *)
Theorem channels_gated cfg count hw :
  (DISP_LEDS cfg = false → pins (run (disp_count cfg count) hw) = pins hw)
  ∧ (DISP_OLED cfg = false →
     oled_buffer (run (disp_count cfg count) hw) = oled_buffer hw
     ∧ oled_frame (run (disp_count cfg count) hw) = oled_frame hw).
Proof.
  split.
  - intros Hl. unfold disp_count. rewrite Hl. simpl.
    rewrite run_pins. by destruct (DISP_OLED cfg).
  - intros Ho. unfold disp_count. rewrite Ho, app_nil_r.
    destruct (DISP_LEDS cfg); [|done]. apply run_leds_display.
Qed.

(** The level of a configured line after [disp_count]. *)
Lemma lamp_level cfg count hw (i : nat) pin :
  DISP_LEDS cfg = true → lamps_wf cfg →
  LED_PINS cfg !! i = Some pin →
  pins (run (disp_count cfg count) hw) !! pin
  = Some (if bool_decide (Z.of_nat i < count) then HIGH else LOW).
Proof.
  intros Hl [Hn Hnd] Hi. rewrite disp_count_pins, led_loop_imap by done.
  exact (written_imap
           (λ i, if bool_decide (Z.of_nat i < count) then HIGH else LOW)
           _ _ i pin Hnd Hi).
Qed.

Lemma disp_count_frame cfg count hw :
  DISP_OLED cfg = true →
  oled_frame (run (disp_count cfg count) hw)
  = [ {| text_x := 0; text_y := 8; text_width := 128;
         text_string := sentence count |} ].
Proof.
  intros Ho. unfold disp_count. by rewrite Ho, run_app, run_oled.
Qed.

(** * Properties of [loop] *)

Lemma loop_num_devices cfg w b : num_devices (loop cfg w b) = matches w.
Proof. unfold loop, matches. simpl. apply count_devices_count. Qed.

Lemma loop_hardware cfg w b :
  hardware (loop cfg w b) = run (disp_count cfg (matches w)) (hardware b).
Proof. unfold loop, matches. simpl. by rewrite count_devices_count. Qed.

(** X11. With both channels enabled and the LED lines well configured, a
    cycle leaves the outputs showing the number of records of its scan that
    pass the filter: [num_devices] is that number, line [i] is active
    exactly when [i] is below it, and the frame is the sentence with that
    number, whatever the outputs showed before the cycle. *)
Theorem loop_shows_matches cfg w b :
  DISP_LEDS cfg = true →
  DISP_OLED cfg = true →
  lamps_wf cfg →
  num_devices (loop cfg w b) = matches w
  ∧ (∀ (i : nat) pin, LED_PINS cfg !! i = Some pin →
       pins (hardware (loop cfg w b)) !! pin
       = Some (if bool_decide (Z.of_nat i < matches w) then HIGH else LOW))
  ∧ oled_frame (hardware (loop cfg w b))
    = [ {| text_x := 0; text_y := 8; text_width := 128;
           text_string :=
             "Found " +:+ pretty (matches w)
             +:+ " devices that passed the filter." |} ].
Proof.
  intros Hl Ho Hwf. split; [apply loop_num_devices|].
  rewrite loop_hardware. split.
  - intros i pin Hi. by apply lamp_level.
  - by apply disp_count_frame.
Qed.

Lemma loop_shows_matches_witness :
  num_devices (loop sketch scenario_D board0) = matches scenario_D
  ∧ pins (hardware (loop sketch scenario_D board0)) !! 32
    = Some (if bool_decide (Z.of_nat 0 < matches scenario_D) then HIGH else LOW)
  ∧ oled_frame (hardware (loop sketch scenario_D board0))
    = [ {| text_x := 0; text_y := 8; text_width := 128;
           text_string :=
             "Found " +:+ pretty (matches scenario_D)
             +:+ " devices that passed the filter." |} ].
Proof.
  assert (lamps_wf sketch) as Hwf by (split; [reflexivity|compute_done]).
  destruct (loop_shows_matches sketch scenario_D board0 eq_refl eq_refl Hwf)
    as (Hn & Hp & Hf).
  split; [exact Hn|]. split; [|exact Hf].
  exact (Hp 0%nat 32 eq_refl).
Defined.

(** After a cycle the serial stream is what [count_devices] left,
    followed by the line giving the count, and the registry is what
    [count_devices] left: the presentation touches neither. *)
Lemma loop_globals cfg w b :
  Serial (globals (loop cfg w b))
  = Serial (count_devices MAC_FILTER w (globals b)).2
    +:+ "Counted " +:+ pretty (matches w) +:+ " devices." +:+ CRLF
  ∧ deviceSignalMap (globals (loop cfg w b))
    = deviceSignalMap (count_devices MAC_FILTER w (globals b)).2.
Proof.
  unfold loop, matches, Serial_println. simpl.
  rewrite count_devices_count. split; [|done].
  by rewrite !string_app_assoc.
Qed.

Lemma run_loops_map cfg ws b :
  deviceSignalMap (globals (run_loops cfg ws b))
  = foldl store (deviceSignalMap (globals b)) (history MAC_FILTER ws).
Proof.
  revert b. induction ws as [|w ws IH]; intros b; [done|].
  change (run_loops cfg (w :: ws) b) with (run_loops cfg ws (loop cfg w b)).
  rewrite history_cons, foldl_app, IH. f_equal.
  unfold loop. simpl. apply count_devices_map.
Qed.

(** X12. Over any run of cycles the registry of the running sketch is
    the one the calls of [count_devices] alone produce: neither the
    presentation nor the line printed after each call changes it. *)
Theorem loop_registry cfg ws b :
  deviceSignalMap (globals (run_loops cfg ws b))
  = deviceSignalMap (run_cycles MAC_FILTER ws (globals b)).
Proof. by rewrite run_loops_map, run_cycles_map. Qed.

(** * Properties of [setup] *)

Lemma run_setup_app t1 t2 s :
  run_setup (t1 ++ t2) s = run_setup t2 (run_setup t1 s).
Proof. apply foldl_app. Qed.

(** After the pin loop over [idx], every pin it visited is an output at
    the inactive level. *)
Lemma setup_pins_state cfg idx s i :
  i ∈ idx →
  gpio_mode (run_setup (idx ≫= setup_pin cfg) s)
    !! nth (Z.to_nat i) (LED_PINS cfg) 0 = Some OUTPUT
  ∧ gpio_level (run_setup (idx ≫= setup_pin cfg) s)
    !! nth (Z.to_nat i) (LED_PINS cfg) 0 = Some LOW.
Proof.
  induction idx as [|j idx IH] using rev_ind; intros Hi.
  - by apply elem_of_nil in Hi.
  - rewrite bind_app, run_setup_app.
    change ([j] ≫= setup_pin cfg) with (setup_pin cfg j ++ []).
    rewrite app_nil_r. unfold setup_pin. simpl.
    destruct (decide (nth (Z.to_nat j) (LED_PINS cfg) 0
                      = nth (Z.to_nat i) (LED_PINS cfg) 0)) as [Heq|Hne].
    + rewrite Heq. by rewrite !lookup_insert_eq.
    + rewrite !lookup_insert_ne by done. apply IH.
      apply elem_of_app in Hi as [Hi|Hi]; [done|].
      apply list_elem_of_singleton in Hi. by subst j.
Qed.

(** X13. With the LEDs enabled and as many pins as [NUM_PINS] says,
    [setup] leaves every pin of [LED_PINS] configured as an output and at
    the inactive level, whatever the pins were before. *)
Theorem setup_leds_off cfg s pin :
  DISP_LEDS cfg = true →
  NUM_PINS cfg = Z.of_nat (length (LED_PINS cfg)) →
  pin ∈ LED_PINS cfg →
  gpio_mode (run_setup (setup cfg) s) !! pin = Some OUTPUT
  ∧ gpio_level (run_setup (setup cfg) s) !! pin = Some LOW.
Proof.
  intros Hl Hn Hpin. unfold setup. rewrite Hl, !run_setup_app.
  apply list_elem_of_lookup in Hpin as [i Hi].
  pose proof (lookup_lt_Some _ _ _ Hi) as Hlt.
  assert (Z.of_nat i ∈ seqZ 0 (NUM_PINS cfg)) as Hidx
    by (apply elem_of_seqZ; lia).
  pose proof (setup_pins_state cfg _
    (run_setup [Serial_begin 115200; Serial_println_empty; WiFi_persistent false] s)
    _ Hidx) as Hst.
  rewrite Nat2Z.id, (nth_lookup_Some _ _ 0 _ Hi) in Hst.
  by destruct (DISP_OLED cfg).
Qed.

Lemma setup_leds_off_witness :
  DISP_LEDS sketch = true
  ∧ NUM_PINS sketch = Z.of_nat (length (LED_PINS sketch))
  ∧ 33 ∈ LED_PINS sketch
  ∧ gpio_mode (run_setup (setup sketch) gpio0) !! 33 = Some OUTPUT
  ∧ gpio_level (run_setup (setup sketch) gpio0) !! 33 = Some LOW.
Proof.
  assert (33 ∈ LED_PINS sketch) as Hpin by compute_done.
  split; [reflexivity|]. split; [reflexivity|]. split; [exact Hpin|].
  exact (setup_leds_off sketch gpio0 33 eq_refl eq_refl Hpin).
Defined.

(** X14. Every pin [disp_count] writes is a pin that [setup] configured
    as an output: the two loops visit the same entries of [LED_PINS]. *)
Theorem writes_configured_pins cfg count pin v :
  digitalWrite pin v ∈ disp_count cfg count →
  pinMode pin OUTPUT ∈ setup cfg.
Proof.
  intros Hin. unfold disp_count in Hin.
  apply elem_of_app in Hin as [Hin|Hin].
  - destruct (DISP_LEDS cfg) eqn:Hl; [|by apply elem_of_nil in Hin].
    unfold led_loop in Hin.
    apply list_elem_of_fmap in Hin as (i & Heq & Hi).
    rewrite led_entry_level in Heq. injection Heq as -> _.
    unfold setup. rewrite Hl.
    apply elem_of_app. right. apply elem_of_app. left.
    apply list_elem_of_bind. exists i. split; [left|done].
  - destruct (DISP_OLED cfg); [|by apply elem_of_nil in Hin].
    unfold oled_calls in Hin.
    repeat (apply elem_of_cons in Hin as [Hin|Hin]; [done|]).
    by apply elem_of_nil in Hin.
Qed.

Lemma writes_configured_pins_witness :
  digitalWrite 33 HIGH ∈ disp_count sketch 2
  ∧ pinMode 33 OUTPUT ∈ setup sketch.
Proof.
  assert (digitalWrite 33 HIGH ∈ disp_count sketch 2) as Hin
    by (right; left).
  split; [exact Hin|].
  exact (writes_configured_pins sketch 2 33 HIGH Hin).
Defined.
